(** * Pyrrhic tablebase interface: move and probe-result codecs

    A shallow embedding of the C headers under [deps/pyrrhic]
    ([tbprobe.h], [api.h], [tbconfig.h], [viridithas_bridge.h]).

    The codecs are preprocessor macros over [unsigned] (32-bit) probe
    results and [uint16_t] moves.  A C unsigned value is a [Z] in
    [0, 2^32); every operation that can leave that range in C ([<<] and
    [~]) is written with its wrap-around.  [&], [|] and [>>] on values in
    range stay in range, so they are the plain [Z] operations. *)

From Stdlib Require Import ZArith Lia Bool List Btauto.
Import ListNotations.

Local Open Scope Z_scope.

(** ** C integer arithmetic on 32-bit operands *)

Definition wrap32 (z : Z) : Z := z mod 2 ^ 32.

(** [x << s] on a 32-bit operand: bits shifted past bit 31 are lost.  For
    an [int] operand this is the two's-complement result, which is also
    the result of the same shift once the operand has been converted to
    [unsigned]. *)
Definition shl32 (x s : Z) : Z := wrap32 (Z.shiftl x s).

(** [~x] on a 32-bit operand, read as an [unsigned]. *)
Definition not32 (x : Z) : Z := wrap32 (Z.lnot x).

Definition is_u32 (z : Z) : Prop := 0 <= z < 2 ^ 32.
Definition is_u16 (z : Z) : Prop := 0 <= z < 2 ^ 16.

(** ** tbprobe.h: PyrrhicMove *)

Definition PYRRHIC_FLAG_NONE   : Z := 0x0.
Definition PYRRHIC_FLAG_QPROMO : Z := 0x1.
Definition PYRRHIC_FLAG_RPROMO : Z := 0x2.
Definition PYRRHIC_FLAG_BPROMO : Z := 0x3.
Definition PYRRHIC_FLAG_NPROMO : Z := 0x4.
Definition PYRRHIC_FLAG_ENPASS : Z := 0x8.

Definition PYRRHIC_SHIFT_TO    : Z := 0.
Definition PYRRHIC_SHIFT_FROM  : Z := 6.
Definition PYRRHIC_SHIFT_FLAGS : Z := 12.

Definition PYRRHIC_MASK_TO          : Z := 0x3F.
Definition PYRRHIC_MASK_FROM        : Z := 0x3F.
Definition PYRRHIC_MASK_FLAGS       : Z := 0x0F.
Definition PYRRHIC_MASK_PROMO_FLAGS : Z := 0x07.

Definition PYRRHIC_MOVE_FLAGS (x : Z) : Z :=
  Z.land (Z.shiftr x PYRRHIC_SHIFT_FLAGS) PYRRHIC_MASK_FLAGS.

(** ** tbprobe.h: main API, probe results *)

Definition TB_MAX_CAPTURES : Z := 64.
Definition TB_MAX_PLY      : Z := 256.

Definition TB_RESULT_WDL_MASK       : Z := 0x0000000F.
Definition TB_RESULT_TO_MASK        : Z := 0x000003F0.
Definition TB_RESULT_FROM_MASK      : Z := 0x0000FC00.
Definition TB_RESULT_PROMOTES_MASK  : Z := 0x00070000.
Definition TB_RESULT_EP_MASK        : Z := 0x00080000.
Definition TB_RESULT_DTZ_MASK       : Z := 0xFFF00000.
Definition TB_RESULT_WDL_SHIFT      : Z := 0.
Definition TB_RESULT_TO_SHIFT       : Z := 4.
Definition TB_RESULT_FROM_SHIFT     : Z := 10.
Definition TB_RESULT_PROMOTES_SHIFT : Z := 16.
Definition TB_RESULT_EP_SHIFT       : Z := 19.
Definition TB_RESULT_DTZ_SHIFT      : Z := 20.

Definition TB_GET_WDL (_res : Z) : Z :=
  Z.shiftr (Z.land _res TB_RESULT_WDL_MASK) TB_RESULT_WDL_SHIFT.
Definition TB_GET_TO (_res : Z) : Z :=
  Z.shiftr (Z.land _res TB_RESULT_TO_MASK) TB_RESULT_TO_SHIFT.
Definition TB_GET_FROM (_res : Z) : Z :=
  Z.shiftr (Z.land _res TB_RESULT_FROM_MASK) TB_RESULT_FROM_SHIFT.
Definition TB_GET_PROMOTES (_res : Z) : Z :=
  Z.shiftr (Z.land _res TB_RESULT_PROMOTES_MASK) TB_RESULT_PROMOTES_SHIFT.
Definition TB_GET_EP (_res : Z) : Z :=
  Z.shiftr (Z.land _res TB_RESULT_EP_MASK) TB_RESULT_EP_SHIFT.
Definition TB_GET_DTZ (_res : Z) : Z :=
  Z.shiftr (Z.land _res TB_RESULT_DTZ_MASK) TB_RESULT_DTZ_SHIFT.

Definition TB_SET_WDL (_res _wdl : Z) : Z :=
  Z.lor (Z.land _res (not32 TB_RESULT_WDL_MASK))
        (Z.land (shl32 _wdl TB_RESULT_WDL_SHIFT) TB_RESULT_WDL_MASK).
Definition TB_SET_TO (_res _to : Z) : Z :=
  Z.lor (Z.land _res (not32 TB_RESULT_TO_MASK))
        (Z.land (shl32 _to TB_RESULT_TO_SHIFT) TB_RESULT_TO_MASK).
Definition TB_SET_FROM (_res _from : Z) : Z :=
  Z.lor (Z.land _res (not32 TB_RESULT_FROM_MASK))
        (Z.land (shl32 _from TB_RESULT_FROM_SHIFT) TB_RESULT_FROM_MASK).
Definition TB_SET_PROMOTES (_res _promotes : Z) : Z :=
  Z.lor (Z.land _res (not32 TB_RESULT_PROMOTES_MASK))
        (Z.land (shl32 _promotes TB_RESULT_PROMOTES_SHIFT) TB_RESULT_PROMOTES_MASK).
Definition TB_SET_EP (_res _ep : Z) : Z :=
  Z.lor (Z.land _res (not32 TB_RESULT_EP_MASK))
        (Z.land (shl32 _ep TB_RESULT_EP_SHIFT) TB_RESULT_EP_MASK).
Definition TB_SET_DTZ (_res _dtz : Z) : Z :=
  Z.lor (Z.land _res (not32 TB_RESULT_DTZ_MASK))
        (Z.land (shl32 _dtz TB_RESULT_DTZ_SHIFT) TB_RESULT_DTZ_MASK).

(** ** api.h *)

Definition PYRRHIC_BLACK : Z := 0.
Definition PYRRHIC_WHITE : Z := 1.

Definition TB_MAX_MOVES : Z := 256.

Definition TB_LOSS         : Z := 0.
Definition TB_BLESSED_LOSS : Z := 1.
Definition TB_DRAW         : Z := 2.
Definition TB_CURSED_WIN   : Z := 3.
Definition TB_WIN          : Z := 4.

Definition TB_RESULT_CHECKMATE : Z := TB_SET_WDL 0 TB_WIN.
Definition TB_RESULT_STALEMATE : Z := TB_SET_WDL 0 TB_DRAW.
Definition TB_RESULT_FAILED    : Z := 0xFFFFFFFF.

Definition PYRRHIC_MOVE_TO (x : Z) : Z :=
  Z.land (Z.shiftr x PYRRHIC_SHIFT_TO) PYRRHIC_MASK_TO.
Definition PYRRHIC_MOVE_FROM (x : Z) : Z :=
  Z.land (Z.shiftr x PYRRHIC_SHIFT_FROM) PYRRHIC_MASK_FROM.

Definition PYRRHIC_MOVE_IS_ENPASS (x : Z) : bool :=
  PYRRHIC_MOVE_FLAGS x =? PYRRHIC_FLAG_ENPASS.
Definition PYRRHIC_MOVE_IS_QPROMO (x : Z) : bool :=
  PYRRHIC_MOVE_FLAGS x =? PYRRHIC_FLAG_QPROMO.
Definition PYRRHIC_MOVE_IS_RPROMO (x : Z) : bool :=
  PYRRHIC_MOVE_FLAGS x =? PYRRHIC_FLAG_RPROMO.
Definition PYRRHIC_MOVE_IS_BPROMO (x : Z) : bool :=
  PYRRHIC_MOVE_FLAGS x =? PYRRHIC_FLAG_BPROMO.
Definition PYRRHIC_MOVE_IS_NPROMO (x : Z) : bool :=
  PYRRHIC_MOVE_FLAGS x =? PYRRHIC_FLAG_NPROMO.

(** ** The six result fields, as one enumeration

    The headers repeat one getter and one setter per field.  [Field]
    names the fields so that a property of all six can be stated once;
    [TB_GET] and [TB_SET] dispatch to the macros above. *)

Inductive Field : Type :=
  | F_WDL | F_TO | F_FROM | F_PROMOTES | F_EP | F_DTZ.

Definition all_fields : list Field :=
  [F_WDL; F_TO; F_FROM; F_PROMOTES; F_EP; F_DTZ].

Definition Field_eq_dec (f g : Field) : {f = g} + {f <> g}.
Proof. decide equality. Defined.

Definition field_mask (f : Field) : Z :=
  match f with
  | F_WDL      => TB_RESULT_WDL_MASK
  | F_TO       => TB_RESULT_TO_MASK
  | F_FROM     => TB_RESULT_FROM_MASK
  | F_PROMOTES => TB_RESULT_PROMOTES_MASK
  | F_EP       => TB_RESULT_EP_MASK
  | F_DTZ      => TB_RESULT_DTZ_MASK
  end.

Definition field_shift (f : Field) : Z :=
  match f with
  | F_WDL      => TB_RESULT_WDL_SHIFT
  | F_TO       => TB_RESULT_TO_SHIFT
  | F_FROM     => TB_RESULT_FROM_SHIFT
  | F_PROMOTES => TB_RESULT_PROMOTES_SHIFT
  | F_EP       => TB_RESULT_EP_SHIFT
  | F_DTZ      => TB_RESULT_DTZ_SHIFT
  end.

(** Number of bits of a field: the length of the run of ones in its mask
    ([field_mask_ones] below ties this table to the masks). *)
Definition field_width (f : Field) : Z :=
  match f with
  | F_WDL      => 4
  | F_TO       => 6
  | F_FROM     => 6
  | F_PROMOTES => 3
  | F_EP       => 1
  | F_DTZ      => 12
  end.

Definition TB_GET (f : Field) : Z -> Z :=
  match f with
  | F_WDL      => TB_GET_WDL
  | F_TO       => TB_GET_TO
  | F_FROM     => TB_GET_FROM
  | F_PROMOTES => TB_GET_PROMOTES
  | F_EP       => TB_GET_EP
  | F_DTZ      => TB_GET_DTZ
  end.

Definition TB_SET (f : Field) : Z -> Z -> Z :=
  match f with
  | F_WDL      => TB_SET_WDL
  | F_TO       => TB_SET_TO
  | F_FROM     => TB_SET_FROM
  | F_PROMOTES => TB_SET_PROMOTES
  | F_EP       => TB_SET_EP
  | F_DTZ      => TB_SET_DTZ
  end.

(** A result built field by field: the six setters applied in turn,
    starting from [r0]. *)
Definition set_all_fields (r0 wdl to from promotes ep dtz : Z) : Z :=
  TB_SET_DTZ
    (TB_SET_EP
       (TB_SET_PROMOTES
          (TB_SET_FROM (TB_SET_TO (TB_SET_WDL r0 wdl) to) from)
          promotes)
       ep)
    dtz.

(** The bit positions a field occupies. *)
Definition in_field (f : Field) (i : Z) : bool :=
  (field_shift f <=? i) && (i <? field_shift f + field_width f).

(** The [unsigned] value of an [int] operand: C's conversion of a
    negative [int] adds [2^32]. *)
Definition to_unsigned (z : Z) : Z := wrap32 z.

(** ** Field values of the data model *)

(** The ranges the data model gives for each field: WDL class 0..4,
    squares 0..63, promotion class 0..7, en-passant flag 0..1, and DTZ
    read as a signed 12-bit distance. *)
Definition data_model_value (f : Field) (v : Z) : Prop :=
  match f with
  | F_WDL      => TB_LOSS <= v <= TB_WIN
  | F_TO       => 0 <= v <= 63
  | F_FROM     => 0 <= v <= 63
  | F_PROMOTES => 0 <= v <= 7
  | F_EP       => 0 <= v <= 1
  | F_DTZ      => -2048 <= v <= 2047
  end.

(** The same ranges with DTZ read as the unsigned 12-bit field value
    that [TB_GET_DTZ] produces. *)
Definition field_value (f : Field) (v : Z) : Prop :=
  match f with
  | F_WDL      => TB_LOSS <= v <= TB_WIN
  | F_TO       => 0 <= v <= 63
  | F_FROM     => 0 <= v <= 63
  | F_PROMOTES => 0 <= v <= 7
  | F_EP       => 0 <= v <= 1
  | F_DTZ      => 0 <= v <= 4095
  end.

(** The setter/getter round trip over the data model's ranges, DTZ
    taken as a signed distance. *)
Definition roundtrip_over_data_model : Prop :=
  forall (f : Field) (r v : Z),
    is_u32 r -> data_model_value f v -> TB_GET f (TB_SET f r v) = v.

(** The five move-kind predicates of api.h, in the order they are
    defined there. *)
Definition move_kind_predicates : list (Z -> bool) :=
  [PYRRHIC_MOVE_IS_ENPASS; PYRRHIC_MOVE_IS_QPROMO; PYRRHIC_MOVE_IS_RPROMO;
   PYRRHIC_MOVE_IS_BPROMO; PYRRHIC_MOVE_IS_NPROMO].

(** How many of the five predicates hold of a move value. *)
Definition move_kinds_holding (x : Z) : nat :=
  length (filter (fun p => p x) move_kind_predicates).

(** ** Probing entry points *)

(** A reference population count of a 64-bit bitboard, used to run the
    probing model on concrete positions. *)
Fixpoint popcount_upto (n : nat) (bb : Z) : Z :=
  match n with
  | O => 0
  | S k => (if Z.testbit bb (Z.of_nat k) then 1 else 0) + popcount_upto k bb
  end.

Definition popcount64 (bb : Z) : Z := popcount_upto 64 bb.

(** The arguments of a probe: the bitboards of api.h's prototypes. *)
Record Position : Type := mkPosition {
  white : Z; black : Z;
  kings : Z; queens : Z; rooks : Z; bishops : Z; knights : Z; pawns : Z;
  ep : Z; turn : bool
}.

Section Probe.

(** [uint32_t viridithas_popcount(uint64_t bb)] of viridithas_bridge.h:
    implemented by the host engine, only declared here. *)
Variable viridithas_popcount : Z -> Z.

(** tbconfig.h *)
Definition PYRRHIC_POPCOUNT (x : Z) : Z := viridithas_popcount x.

(** [extern int TB_LARGEST] of tbprobe.h: "The tablebase can be probed
    for any position where #pieces <= TB_LARGEST." *)
Variable TB_LARGEST : Z.

(** The loaded table data: the outcome stored for a position, from the
    side to move's point of view, or [None] when no table is loaded for
    its material.  Loading and indexing the tables is outside the
    headers. *)
Variable wdl_table : Position -> option Z.

(** The move enumeration and ranking of the root probe, internal to
    the probing code. *)
Variable root_search : Position -> Z -> Z.

(** Modelled from the spec: the total piece count of a position, the
    population count of the squares occupied by either colour. *)
Definition piece_count (pos : Position) : Z :=
  PYRRHIC_POPCOUNT (Z.lor (white pos) (black pos)).

(** Modelled from the spec: the body of [tb_probe_wdl], which api.h
    only declares.  The probing engine checks the published largest
    supported piece count before attempting any lookup; a material
    signature absent from the loaded tables gives the failure
    sentinel; otherwise the stored outcome is returned. *)
Definition tb_probe_wdl
    (white black kings queens rooks bishops knights pawns ep : Z)
    (turn : bool) : Z :=
  let pos := mkPosition white black kings queens rooks bishops knights
                        pawns ep turn in
  if TB_LARGEST <? piece_count pos then TB_RESULT_FAILED
  else match wdl_table pos with
       | Some wdl => wdl
       | None => TB_RESULT_FAILED
       end.

(** Modelled from the spec: the body of [tb_probe_root], which api.h
    only declares.  If WDL probing fails for the position itself the
    whole call fails and returns the failure sentinel; otherwise the
    root search produces the packed result.  The [results] array the
    C function also fills is left out. *)
Definition tb_probe_root
    (white black kings queens rooks bishops knights pawns rule50 ep : Z)
    (turn : bool) : Z :=
  let pos := mkPosition white black kings queens rooks bishops knights
                        pawns ep turn in
  if tb_probe_wdl white black kings queens rooks bishops knights pawns
                  ep turn =? TB_RESULT_FAILED
  then TB_RESULT_FAILED
  else root_search pos rule50.

(** Whether a root position is an always-draw for lack of material, and
    the move selection of the two list-producing root probes: all three
    are internal to the probing code. *)
Variable insufficient_material : Position -> bool.
Variable root_dtz_search : Position -> Z -> bool -> Z.
Variable root_wdl_search : Position -> Z -> bool -> Z.

(** Modelled from the spec: the body of [tb_probe_root_dtz], which api.h
    only declares.  The largest supported piece count is checked before
    anything else, and a position beyond it always gives the failure
    sentinel; an always-draw root position for lack of material is then
    reported with the stalemate value without any table lookup; the
    missing-table failures are those of the WDL probe of the position
    itself; otherwise the DTZ root search gives the packed result.  The
    prototype returns [int]: the value is given in its [unsigned]
    reading, the one under which C compares it with the reserved
    values.  The [results] structure the C function also fills is left
    out. *)
Definition tb_probe_root_dtz
    (white black kings queens rooks bishops knights pawns rule50 ep : Z)
    (turn hasRepeated : bool) : Z :=
  let pos := mkPosition white black kings queens rooks bishops knights
                        pawns ep turn in
  if TB_LARGEST <? piece_count pos then TB_RESULT_FAILED
  else if insufficient_material pos then TB_RESULT_STALEMATE
  else if tb_probe_wdl white black kings queens rooks bishops knights
                       pawns ep turn =? TB_RESULT_FAILED
  then TB_RESULT_FAILED
  else root_dtz_search pos rule50 hasRepeated.

(** Modelled from the spec: the body of [tb_probe_root_wdl], which api.h
    only declares: the variant of [tb_probe_root_dtz] that ranks by WDL
    class only, [useRule50] choosing whether the fifty-move-rule draw
    classes are folded into draws.  Its failure conditions and the
    reading of its [int] result are those of [tb_probe_root_dtz]. *)
Definition tb_probe_root_wdl
    (white black kings queens rooks bishops knights pawns rule50 ep : Z)
    (turn useRule50 : bool) : Z :=
  let pos := mkPosition white black kings queens rooks bishops knights
                        pawns ep turn in
  if TB_LARGEST <? piece_count pos then TB_RESULT_FAILED
  else if insufficient_material pos then TB_RESULT_STALEMATE
  else if tb_probe_wdl white black kings queens rooks bishops knights
                       pawns ep turn =? TB_RESULT_FAILED
  then TB_RESULT_FAILED
  else root_wdl_search pos rule50 useRule50.

End Probe.

(** ** api.h: decoding a tablebase result *)

Definition TB_RESULT_WDL (_res : Z) : Z :=
  Z.shiftr (Z.land _res TB_RESULT_WDL_MASK) TB_RESULT_WDL_SHIFT.
Definition TB_RESULT_DTZ (_res : Z) : Z :=
  Z.shiftr (Z.land _res TB_RESULT_DTZ_MASK) TB_RESULT_DTZ_SHIFT.

Definition TB_RESULT_TO (_res : Z) : Z :=
  Z.shiftr (Z.land _res TB_RESULT_TO_MASK) TB_RESULT_TO_SHIFT.
Definition TB_RESULT_FROM (_res : Z) : Z :=
  Z.shiftr (Z.land _res TB_RESULT_FROM_MASK) TB_RESULT_FROM_SHIFT.
Definition TB_RESULT_IS_ENPASS (_res : Z) : Z :=
  Z.shiftr (Z.land _res TB_RESULT_EP_MASK) TB_RESULT_EP_SHIFT.

Definition TB_RESULT_IS_QPROMO (_res : Z) : bool :=
  TB_GET_PROMOTES _res =? PYRRHIC_FLAG_QPROMO.
Definition TB_RESULT_IS_RPROMO (_res : Z) : bool :=
  TB_GET_PROMOTES _res =? PYRRHIC_FLAG_RPROMO.
Definition TB_RESULT_IS_BPROMO (_res : Z) : bool :=
  TB_GET_PROMOTES _res =? PYRRHIC_FLAG_BPROMO.
Definition TB_RESULT_IS_NPROMO (_res : Z) : bool :=
  TB_GET_PROMOTES _res =? PYRRHIC_FLAG_NPROMO.

(** The three reserved result values of api.h. *)
Definition is_sentinel (r : Z) : Prop :=
  r = TB_RESULT_CHECKMATE \/ r = TB_RESULT_STALEMATE \/ r = TB_RESULT_FAILED.

(** ** Generic bit lemmas *)

Lemma wrap32_bits (z i : Z) :
  Z.testbit (wrap32 z) i = (i <? 32) && Z.testbit z i.
Proof.
  unfold wrap32. destruct (Z.ltb_spec i 32) as [Hlt | Hge]; cbn [andb].
  - destruct (Z.ltb_spec i 0) as [Hneg | Hpos].
    + now rewrite !Z.testbit_neg_r.
    + apply Z.mod_pow2_bits_low. lia.
  - apply Z.mod_pow2_bits_high. lia.
Qed.

Lemma shl32_bits (x s i : Z) :
  0 <= s -> 0 <= i ->
  Z.testbit (shl32 x s) i = (i <? 32) && Z.testbit x (i - s).
Proof.
  intros Hs Hi. unfold shl32. rewrite wrap32_bits.
  now rewrite Z.shiftl_spec.
Qed.

Lemma not32_bits (x i : Z) :
  0 <= i ->
  Z.testbit (not32 x) i = (i <? 32) && negb (Z.testbit x i).
Proof.
  intros Hi. unfold not32. rewrite wrap32_bits.
  now rewrite Z.lnot_spec.
Qed.

Lemma is_u32_bits_high (r i : Z) :
  is_u32 r -> 32 <= i -> Z.testbit r i = false.
Proof.
  intros [H0 H1] Hi.
  rewrite <- (Z.mod_small r (2 ^ 32)) by lia.
  apply Z.mod_pow2_bits_high. lia.
Qed.

Lemma mod_pow2_bits (v w i : Z) :
  0 <= w ->
  Z.testbit (v mod 2 ^ w) i = (i <? w) && Z.testbit v i.
Proof.
  intros Hw. destruct (Z.ltb_spec i w) as [Hlt | Hge]; cbn [andb].
  - destruct (Z.ltb_spec i 0) as [Hneg | Hpos].
    + now rewrite !Z.testbit_neg_r.
    + apply Z.mod_pow2_bits_low. lia.
  - apply Z.mod_pow2_bits_high. lia.
Qed.

(** ** Field geometry *)

Ltac field_consts :=
  cbn [field_shift field_width] in *;
  unfold TB_RESULT_WDL_SHIFT, TB_RESULT_TO_SHIFT, TB_RESULT_FROM_SHIFT,
    TB_RESULT_PROMOTES_SHIFT, TB_RESULT_EP_SHIFT, TB_RESULT_DTZ_SHIFT in *.

Lemma field_mask_ones (f : Field) :
  field_mask f = Z.shiftl (Z.ones (field_width f)) (field_shift f).
Proof. destruct f; reflexivity. Qed.

Lemma field_geometry (f : Field) :
  0 <= field_shift f /\ 0 < field_width f /\
  field_shift f + field_width f <= 32.
Proof. destruct f; cbv; intuition discriminate. Qed.

Lemma field_mask_bits (f : Field) (i : Z) :
  0 <= i -> Z.testbit (field_mask f) i = in_field f i.
Proof.
  intros Hi. destruct (field_geometry f) as (Hs & Hw & _).
  rewrite field_mask_ones, Z.shiftl_spec by assumption.
  rewrite Z.testbit_ones by lia. unfold in_field.
  destruct (Z.leb_spec 0 (i - field_shift f)),
           (Z.leb_spec (field_shift f) i),
           (Z.ltb_spec (i - field_shift f) (field_width f)),
           (Z.ltb_spec i (field_shift f + field_width f));
    cbn [andb]; try reflexivity; lia.
Qed.

Lemma TB_GET_eq (f : Field) (r : Z) :
  TB_GET f r = Z.shiftr (Z.land r (field_mask f)) (field_shift f).
Proof. destruct f; reflexivity. Qed.

Lemma TB_SET_eq (f : Field) (r v : Z) :
  TB_SET f r v =
  Z.lor (Z.land r (not32 (field_mask f)))
        (Z.land (shl32 v (field_shift f)) (field_mask f)).
Proof. destruct f; reflexivity. Qed.

Lemma TB_GET_bits (f : Field) (r i : Z) :
  0 <= i ->
  Z.testbit (TB_GET f r) i =
  (i <? field_width f) && Z.testbit r (i + field_shift f).
Proof.
  intros Hi. destruct (field_geometry f) as (Hs & Hw & _).
  rewrite TB_GET_eq, Z.shiftr_spec, Z.land_spec by assumption.
  rewrite field_mask_bits by lia. unfold in_field.
  destruct (Z.leb_spec (field_shift f) (i + field_shift f)),
           (Z.ltb_spec (i + field_shift f) (field_shift f + field_width f)),
           (Z.ltb_spec i (field_width f));
    cbn [andb]; try lia; btauto.
Qed.

Lemma TB_SET_bits (f : Field) (r v i : Z) :
  0 <= i ->
  Z.testbit (TB_SET f r v) i =
  if in_field f i then Z.testbit v (i - field_shift f)
  else (i <? 32) && Z.testbit r i.
Proof.
  intros Hi. destruct (field_geometry f) as (Hs & Hw & Hsw).
  rewrite TB_SET_eq, Z.lor_spec, !Z.land_spec.
  rewrite not32_bits, shl32_bits, field_mask_bits by assumption.
  case_eq (in_field f i); intros Hin; cbn [negb].
  - unfold in_field in Hin. apply andb_true_iff in Hin as [_ Hlt].
    apply Z.ltb_lt in Hlt.
    replace (i <? 32) with true by (symmetry; apply Z.ltb_lt; lia).
    btauto.
  - btauto.
Qed.

Lemma TB_SET_is_u32 (f : Field) (r v : Z) : is_u32 (TB_SET f r v).
Proof.
  assert (Hbits : forall i, 32 <= i -> Z.testbit (TB_SET f r v) i = false).
  { intros i Hi. destruct (field_geometry f) as (Hs & Hw & Hsw).
    rewrite TB_SET_bits by lia. unfold in_field.
    destruct (Z.leb_spec (field_shift f) i),
             (Z.ltb_spec i (field_shift f + field_width f)),
             (Z.ltb_spec i 32); cbn [andb]; try reflexivity; lia. }
  assert (Hnn : 0 <= TB_SET f r v).
  { rewrite TB_SET_eq. apply Z.lor_nonneg. split.
    - apply Z.land_nonneg. right. unfold not32, wrap32.
      apply Z.mod_pos_bound. lia.
    - apply Z.land_nonneg. left. unfold shl32, wrap32.
      apply Z.mod_pos_bound. lia. }
  split; [assumption|].
  destruct (Z.eq_dec (TB_SET f r v) 0) as [-> | Hnz]; [lia|].
  apply Z.log2_lt_pow2; [lia|].
  destruct (Z.lt_ge_cases (Z.log2 (TB_SET f r v)) 32) as [|Hge]; [assumption|].
  specialize (Hbits _ Hge). rewrite Z.bit_log2 in Hbits by lia. discriminate.
Qed.

(** Reading a field back after writing it: the low [field_width] bits of
    the written operand, whatever the operand. *)
Lemma TB_GET_SET_same (f : Field) (r v : Z) :
  TB_GET f (TB_SET f r v) = v mod 2 ^ field_width f.
Proof.
  destruct (field_geometry f) as (Hs & Hw & Hsw).
  apply Z.bits_inj'. intros i Hi.
  rewrite TB_GET_bits, TB_SET_bits, mod_pow2_bits by lia.
  unfold in_field.
  replace (i + field_shift f - field_shift f) with i by lia.
  destruct (Z.leb_spec (field_shift f) (i + field_shift f)),
           (Z.ltb_spec (i + field_shift f) (field_shift f + field_width f)),
           (Z.ltb_spec i (field_width f));
    cbn [andb]; try reflexivity; lia.
Qed.

(** Two distinct fields share no bit position. *)
Lemma in_field_disjoint (f g : Field) (i : Z) :
  f <> g -> in_field f i = true -> in_field g i = false.
Proof.
  intros Hfg Hf. unfold in_field in *.
  apply andb_true_iff in Hf as [Hlo Hhi].
  apply Z.leb_le in Hlo. apply Z.ltb_lt in Hhi.
  apply andb_false_iff.
  destruct (Z.leb_spec (field_shift g) i) as [Hg|]; [right | now left].
  apply Z.ltb_ge.
  destruct f, g; try congruence; field_consts; lia.
Qed.

(** A setter leaves every bit outside its field as it was. *)
Lemma TB_SET_bits_outside (f : Field) (r v i : Z) :
  is_u32 r -> in_field f i = false ->
  Z.testbit (TB_SET f r v) i = Z.testbit r i.
Proof.
  intros Hr Hout. destruct (Z.lt_ge_cases i 0) as [Hneg | Hpos].
  - now rewrite !Z.testbit_neg_r.
  - rewrite TB_SET_bits, Hout by assumption.
    destruct (Z.ltb_spec i 32); cbn [andb]; [reflexivity|].
    symmetry. now apply is_u32_bits_high.
Qed.

(** A setter leaves the reading of every other field as it was. *)
Lemma TB_GET_SET_other (f g : Field) (r v : Z) :
  g <> f -> TB_GET g (TB_SET f r v) = TB_GET g r.
Proof.
  intros Hgf. destruct (field_geometry g) as (Hs & Hw & Hsw).
  apply Z.bits_inj'. intros i Hi.
  rewrite !TB_GET_bits by assumption.
  destruct (Z.ltb_spec i (field_width g)) as [Hlt|]; cbn [andb]; [|reflexivity].
  rewrite TB_SET_bits by lia.
  assert (Hg : in_field g (i + field_shift g) = true).
  { unfold in_field. apply andb_true_iff. split.
    - apply Z.leb_le. lia.
    - apply Z.ltb_lt. lia. }
  rewrite (in_field_disjoint g f _ Hgf Hg).
  replace (i + field_shift g <? 32) with true
    by (symmetry; apply Z.ltb_lt; lia).
  reflexivity.
Qed.

Lemma bits_above (x n i : Z) :
  0 <= n -> 0 <= x < 2 ^ n -> n <= i -> Z.testbit x i = false.
Proof.
  intros Hn Hx Hi.
  rewrite <- (Z.mod_small x (2 ^ n)) by assumption.
  apply Z.mod_pow2_bits_high. lia.
Qed.

Lemma field_value_mod (f : Field) (v : Z) :
  field_value f v -> v mod 2 ^ field_width f = v.
Proof.
  intros Hv. apply Z.mod_small.
  destruct f; cbn [field_value field_width] in *;
    unfold TB_LOSS, TB_WIN in *; lia.
Qed.

Ltac closed_u32 := unfold is_u32; split; [discriminate | reflexivity].

(** ** Result codec: round trip and frame *)

(** C1 (as amended): for every 32-bit result [r] and every field value
    [v] in the data model's range for its field, with DTZ taken as the
    unsigned 12-bit field value 0..4095, the setter followed by the
    matching getter returns [v], for each of the six fields.  A negative
    DTZ distance [d] in -2048..-1 is not read back as [d]: the getter
    returns [d + 4096]. *)
Theorem C1_set_then_get (f : Field) (r v : Z) :
  is_u32 r ->
  (field_value f v -> TB_GET f (TB_SET f r v) = v) /\
  (-2048 <= v < 0 -> TB_GET_DTZ (TB_SET_DTZ r v) = v + 4096).
Proof.
  intros _. split.
  - intros Hv. rewrite TB_GET_SET_same. now apply field_value_mod.
  - intros Hv. change (TB_GET F_DTZ (TB_SET F_DTZ r v) = v + 4096).
    rewrite TB_GET_SET_same. cbn [field_width].
    rewrite <- (Z.mod_add v 1 (2 ^ 12)) by lia.
    apply Z.mod_small. lia.
Qed.

Lemma C1_set_then_get_witness :
  TB_GET F_FROM (TB_SET F_FROM 0x011031C4 52) = 52 /\
  TB_GET_DTZ (TB_SET_DTZ 0x011031C4 (-3)) = -3 + 4096.
Proof.
  assert (Hr : is_u32 0x011031C4) by closed_u32.
  split.
  - apply (C1_set_then_get F_FROM 0x011031C4 52 Hr). cbn. lia.
  - apply (C1_set_then_get F_DTZ 0x011031C4 (-3) Hr). lia.
Defined.

(** C1 as stated fails: with DTZ read as a signed distance, the value -1
    is in range, yet the getter returns 4095 after it is set, whether -1
    is passed as an [int] or converted to [unsigned] first. *)
Lemma C1_signed_dtz_counterexample :
  is_u32 0 /\ data_model_value F_DTZ (-1) /\
  TB_GET_DTZ (TB_SET_DTZ 0 (-1)) = 4095 /\
  TB_GET_DTZ (TB_SET_DTZ 0 (to_unsigned (-1))) = 4095 /\
  ~ roundtrip_over_data_model.
Proof.
  assert (H0 : is_u32 0) by closed_u32.
  assert (Hv : data_model_value F_DTZ (-1)) by (cbn; lia).
  split; [exact H0|]. split; [exact Hv|].
  split; [reflexivity|]. split; [reflexivity|].
  intros Hall. specialize (Hall F_DTZ 0 (-1) H0 Hv). discriminate Hall.
Qed.

(** C2: for every 32-bit result [r], every field and every operand [v],
    in range or not, the setter agrees with [r] on every bit outside the
    field's mask, and the getters of the other five fields return what
    they returned on [r]. *)
Theorem C2_setter_frame (f : Field) (r v : Z) :
  is_u32 r ->
  (forall i, Z.testbit (field_mask f) i = false ->
             Z.testbit (TB_SET f r v) i = Z.testbit r i) /\
  (forall g, g <> f -> TB_GET g (TB_SET f r v) = TB_GET g r).
Proof.
  intros Hr. split.
  - intros i Hi. destruct (Z.lt_ge_cases i 0) as [Hneg | Hpos].
    + now rewrite !Z.testbit_neg_r.
    + rewrite field_mask_bits in Hi by assumption.
      now apply TB_SET_bits_outside.
  - intros g Hg. now apply TB_GET_SET_other.
Qed.

Lemma C2_setter_frame_witness :
  Z.testbit (TB_SET F_TO 0x011031C4 0xFFFFFFFF) 10 = Z.testbit 0x011031C4 10 /\
  TB_GET F_FROM (TB_SET F_TO 0x011031C4 0xFFFFFFFF) = TB_GET F_FROM 0x011031C4.
Proof.
  assert (Hr : is_u32 0x011031C4) by closed_u32.
  destruct (C2_setter_frame F_TO 0x011031C4 0xFFFFFFFF Hr) as [Hbits Hget].
  split.
  - apply Hbits. reflexivity.
  - apply Hget. discriminate.
Defined.

(** C10: a setter operand wider than its field is truncated, not
    rejected: for every 32-bit result [r], every field of width [w] and
    every operand [v], the getter after the setter returns [v mod 2^w],
    the bits outside the field are unchanged, and so is every other
    field. *)
Theorem C10_setter_truncates (f : Field) (r v : Z) :
  is_u32 r ->
  field_mask f = Z.shiftl (Z.ones (field_width f)) (field_shift f) /\
  TB_GET f (TB_SET f r v) = v mod 2 ^ field_width f /\
  (forall i, Z.testbit (field_mask f) i = false ->
             Z.testbit (TB_SET f r v) i = Z.testbit r i) /\
  (forall g, g <> f -> TB_GET g (TB_SET f r v) = TB_GET g r) /\
  is_u32 (TB_SET f r v).
Proof.
  intros Hr. split; [apply field_mask_ones|].
  split; [apply TB_GET_SET_same|]. split; [|split].
  - intros i Hi. destruct (Z.lt_ge_cases i 0) as [Hneg | Hpos].
    + now rewrite !Z.testbit_neg_r.
    + rewrite field_mask_bits in Hi by assumption.
      now apply TB_SET_bits_outside.
  - intros g Hg. now apply TB_GET_SET_other.
  - apply TB_SET_is_u32.
Qed.

Lemma C10_setter_truncates_witness :
  TB_GET F_WDL (TB_SET F_WDL 0xFFFFFFFF 20) = 20 mod 2 ^ 4 /\
  TB_GET F_TO (TB_SET F_WDL 0xFFFFFFFF 20) = TB_GET F_TO 0xFFFFFFFF.
Proof.
  assert (Hr : is_u32 0xFFFFFFFF) by closed_u32.
  destruct (C10_setter_truncates F_WDL 0xFFFFFFFF 20 Hr)
    as (_ & Hget & _ & Hother & _).
  split.
  - exact Hget.
  - apply Hother. discriminate.
Defined.

(** ** Move codec *)

(** What an api.h move decoder, a shift followed by a mask of [w] ones,
    reads from a value. *)
Lemma shr_mask_bits (x s w i : Z) :
  0 <= s -> 0 <= w -> 0 <= i ->
  Z.testbit (Z.land (Z.shiftr x s) (Z.ones w)) i =
  (i <? w) && Z.testbit x (i + s).
Proof.
  intros Hs Hw Hi.
  rewrite Z.land_spec, Z.shiftr_spec, Z.testbit_ones by assumption.
  destruct (Z.leb_spec 0 i); [|lia]. cbn [andb]. apply andb_comm.
Qed.

Lemma packed_move_bits (o d f j : Z) :
  0 <= j ->
  Z.testbit (Z.lor (Z.lor (Z.shiftl f 12) (Z.shiftl o 6)) d) j =
  Z.testbit f (j - 12) || Z.testbit o (j - 6) || Z.testbit d j.
Proof.
  intros Hj. now rewrite !Z.lor_spec, !Z.shiftl_spec by assumption.
Qed.

Lemma packed_move_decodes (o d f : Z) :
  0 <= o < 2 ^ 6 -> 0 <= d < 2 ^ 6 -> 0 <= f < 2 ^ 4 ->
  let m := Z.lor (Z.lor (Z.shiftl f 12) (Z.shiftl o 6)) d in
  PYRRHIC_MOVE_FROM m = o /\ PYRRHIC_MOVE_TO m = d /\
  PYRRHIC_MOVE_FLAGS m = f.
Proof.
  intros Ho Hd Hf m. subst m.
  unfold PYRRHIC_MOVE_FROM, PYRRHIC_MOVE_TO, PYRRHIC_MOVE_FLAGS.
  change PYRRHIC_MASK_FROM with (Z.ones 6).
  change PYRRHIC_MASK_TO with (Z.ones 6).
  change PYRRHIC_MASK_FLAGS with (Z.ones 4).
  unfold PYRRHIC_SHIFT_FROM, PYRRHIC_SHIFT_TO, PYRRHIC_SHIFT_FLAGS.
  repeat split; apply Z.bits_inj'; intros i Hi;
    rewrite shr_mask_bits, packed_move_bits by lia.
  - destruct (Z.ltb_spec i 6) as [Hlt | Hge]; cbn [andb].
    + rewrite (Z.testbit_neg_r f) by lia.
      rewrite (bits_above d 6 (i + 6)) by lia.
      replace (i + 6 - 6) with i by lia.
      now rewrite orb_false_r.
    + symmetry. apply (bits_above o 6); lia.
  - destruct (Z.ltb_spec i 6) as [Hlt | Hge]; cbn [andb].
    + rewrite (Z.testbit_neg_r f), (Z.testbit_neg_r o) by lia.
      now rewrite Z.add_0_r.
    + symmetry. apply (bits_above d 6); lia.
  - destruct (Z.ltb_spec i 4) as [Hlt | Hge]; cbn [andb].
    + rewrite (bits_above o 6 (i + 12 - 6)) by lia.
      rewrite (bits_above d 6 (i + 12)) by lia.
      replace (i + 12 - 12) with i by lia.
      now rewrite !orb_false_r.
    + symmetry. apply (bits_above f 4); lia.
Qed.

Lemma packed_move_is_u16 (o d f : Z) :
  0 <= o < 2 ^ 6 -> 0 <= d < 2 ^ 6 -> 0 <= f < 2 ^ 4 ->
  is_u16 (Z.lor (Z.lor (Z.shiftl f 12) (Z.shiftl o 6)) d).
Proof.
  intros Ho Hd Hf.
  set (m := Z.lor (Z.lor (Z.shiftl f 12) (Z.shiftl o 6)) d).
  assert (Hnn : 0 <= m).
  { subst m. repeat (apply Z.lor_nonneg; split);
      try apply Z.shiftl_nonneg; lia. }
  split; [assumption|].
  destruct (Z.eq_dec m 0) as [-> | Hnz]; [lia|].
  apply Z.log2_lt_pow2; [lia|].
  destruct (Z.lt_ge_cases (Z.log2 m) 16) as [|Hge]; [assumption|].
  assert (Hbit : Z.testbit m (Z.log2 m) = true) by (apply Z.bit_log2; lia).
  subst m. rewrite packed_move_bits in Hbit by lia.
  rewrite (bits_above f 4), (bits_above o 6), (bits_above d 6) in Hbit
    by lia.
  discriminate.
Qed.

(** C3: for every origin and destination square in 0..63 and every flag
    among 0, 1, 2, 3, 4, 8, the move value [(f<<12) | (o<<6) | d] is a
    16-bit value that decodes to exactly [(o, d, f)]; for origin 12,
    destination 28 and the queen-promotion flag the packed value is
    [(1<<12) | (12<<6) | 28] and [PYRRHIC_MOVE_IS_QPROMO] holds of it. *)
Theorem C3_move_decode_of_packed :
  (forall o d f : Z,
     0 <= o <= 63 -> 0 <= d <= 63 ->
     In f [PYRRHIC_FLAG_NONE; PYRRHIC_FLAG_QPROMO; PYRRHIC_FLAG_RPROMO;
           PYRRHIC_FLAG_BPROMO; PYRRHIC_FLAG_NPROMO; PYRRHIC_FLAG_ENPASS] ->
     let m := Z.lor (Z.lor (Z.shiftl f 12) (Z.shiftl o 6)) d in
     is_u16 m /\
     PYRRHIC_MOVE_FROM m = o /\ PYRRHIC_MOVE_TO m = d /\
     PYRRHIC_MOVE_FLAGS m = f) /\
  (let m := Z.lor (Z.lor (Z.shiftl PYRRHIC_FLAG_QPROMO 12) (Z.shiftl 12 6)) 28 in
   m = 0x131C /\
   PYRRHIC_MOVE_FROM m = 12 /\ PYRRHIC_MOVE_TO m = 28 /\
   PYRRHIC_MOVE_FLAGS m = PYRRHIC_FLAG_QPROMO /\
   PYRRHIC_MOVE_IS_QPROMO m = true).
Proof.
  split.
  - intros o d f Ho Hd Hf m.
    assert (Hf' : 0 <= f < 2 ^ 4).
    { cbn [In] in Hf.
      unfold PYRRHIC_FLAG_NONE, PYRRHIC_FLAG_QPROMO, PYRRHIC_FLAG_RPROMO,
        PYRRHIC_FLAG_BPROMO, PYRRHIC_FLAG_NPROMO, PYRRHIC_FLAG_ENPASS in Hf.
      lia. }
    split.
    + apply packed_move_is_u16; lia.
    + apply packed_move_decodes; lia.
  - cbv zeta. repeat split.
Qed.

Lemma C3_move_decode_of_packed_witness :
  PYRRHIC_MOVE_FROM (Z.lor (Z.lor (Z.shiftl 8 12) (Z.shiftl 33 6)) 40) = 33 /\
  PYRRHIC_MOVE_TO (Z.lor (Z.lor (Z.shiftl 8 12) (Z.shiftl 33 6)) 40) = 40 /\
  PYRRHIC_MOVE_FLAGS (Z.lor (Z.lor (Z.shiftl 8 12) (Z.shiftl 33 6)) 40) = 8.
Proof.
  destruct C3_move_decode_of_packed as [Hall _].
  refine (proj2 (Hall 33 40 8 _ _ _)).
  - lia.
  - lia.
  - cbn. unfold PYRRHIC_FLAG_ENPASS. tauto.
Defined.

(** C7: of the five predicates [PYRRHIC_MOVE_IS_ENPASS], [_QPROMO],
    [_RPROMO], [_BPROMO], [_NPROMO], at most one holds of any move value;
    in particular none is classified both as a promotion and as an
    en-passant capture. *)
Theorem C7_move_kinds_exclusive (x : Z) :
  (move_kinds_holding x <= 1)%nat /\
  (PYRRHIC_MOVE_IS_ENPASS x &&
   (PYRRHIC_MOVE_IS_QPROMO x || PYRRHIC_MOVE_IS_RPROMO x ||
    PYRRHIC_MOVE_IS_BPROMO x || PYRRHIC_MOVE_IS_NPROMO x) = false).
Proof.
  unfold move_kinds_holding, move_kind_predicates.
  unfold PYRRHIC_MOVE_IS_ENPASS, PYRRHIC_MOVE_IS_QPROMO,
    PYRRHIC_MOVE_IS_RPROMO, PYRRHIC_MOVE_IS_BPROMO, PYRRHIC_MOVE_IS_NPROMO.
  unfold PYRRHIC_FLAG_ENPASS, PYRRHIC_FLAG_QPROMO, PYRRHIC_FLAG_RPROMO,
    PYRRHIC_FLAG_BPROMO, PYRRHIC_FLAG_NPROMO.
  cbn [filter]. generalize (PYRRHIC_MOVE_FLAGS x). intros fl.
  destruct (Z.eqb_spec fl 8), (Z.eqb_spec fl 1), (Z.eqb_spec fl 2),
           (Z.eqb_spec fl 3), (Z.eqb_spec fl 4);
    cbn [length andb orb]; try lia; split; (lia || reflexivity).
Qed.

(** ** Result codec: layout *)

Lemma field_mask_range (f : Field) (lo hi i : Z) :
  field_shift f = lo -> field_shift f + field_width f = hi + 1 ->
  Z.testbit (field_mask f) i = (lo <=? i) && (i <=? hi).
Proof.
  intros Hlo Hhi. destruct (field_geometry f) as (Hs & _ & _).
  destruct (Z.lt_ge_cases i 0) as [Hneg | Hpos].
  - rewrite Z.testbit_neg_r by assumption.
    destruct (Z.leb_spec lo i); [lia | reflexivity].
  - rewrite field_mask_bits by assumption. unfold in_field.
    destruct (Z.leb_spec (field_shift f) i), (Z.leb_spec lo i),
             (Z.ltb_spec i (field_shift f + field_width f)),
             (Z.leb_spec i hi);
      cbn [andb]; try reflexivity; lia.
Qed.

Lemma field_masks_disjoint (f g : Field) :
  f <> g -> Z.land (field_mask f) (field_mask g) = 0.
Proof. destruct f, g; intros H; try reflexivity; congruence. Qed.

(** C4: the six fields are packed contiguously from the least
    significant bit upward, in the data model's order: WDL in bits 0-3,
    destination square in bits 4-9, origin square in bits 10-15,
    promotion class in bits 16-18, en-passant flag in bit 19, DTZ in
    bits 20-31; each shift is the field's lowest bit; the masks are
    pairwise disjoint and together cover all 32 bits. *)
Theorem C4_result_field_layout :
  (forall i, Z.testbit TB_RESULT_WDL_MASK i = (0 <=? i) && (i <=? 3)) /\
  (forall i, Z.testbit TB_RESULT_TO_MASK i = (4 <=? i) && (i <=? 9)) /\
  (forall i, Z.testbit TB_RESULT_FROM_MASK i = (10 <=? i) && (i <=? 15)) /\
  (forall i, Z.testbit TB_RESULT_PROMOTES_MASK i = (16 <=? i) && (i <=? 18)) /\
  (forall i, Z.testbit TB_RESULT_EP_MASK i = (19 <=? i) && (i <=? 19)) /\
  (forall i, Z.testbit TB_RESULT_DTZ_MASK i = (20 <=? i) && (i <=? 31)) /\
  map field_shift all_fields = [0; 4; 10; 16; 19; 20] /\
  (forall f g, f <> g -> Z.land (field_mask f) (field_mask g) = 0) /\
  fold_right Z.lor 0 (map field_mask all_fields) = Z.ones 32.
Proof.
  split; [intros i; now apply (field_mask_range F_WDL)|].
  split; [intros i; now apply (field_mask_range F_TO)|].
  split; [intros i; now apply (field_mask_range F_FROM)|].
  split; [intros i; now apply (field_mask_range F_PROMOTES)|].
  split; [intros i; now apply (field_mask_range F_EP)|].
  split; [intros i; now apply (field_mask_range F_DTZ)|].
  split; [reflexivity|].
  split; [exact field_masks_disjoint | reflexivity].
Qed.

(** C5: the result with WDL = Win (4), to = 28, from = 12, promotes = 0,
    ep = 0, dtz = 17 packs to the literal
    [4 | (28<<4) | (12<<10) | (17<<20) = 0x011031C4], and the six getters
    on that literal return 4, 28, 12, 0, 0 and 17. *)
Theorem C5_packed_example :
  Z.lor (Z.lor (Z.lor TB_WIN (Z.shiftl 28 4)) (Z.shiftl 12 10)) (Z.shiftl 17 20)
    = 0x011031C4 /\
  set_all_fields 0 TB_WIN 28 12 0 0 17 = 0x011031C4 /\
  TB_GET_WDL 0x011031C4 = 4 /\
  TB_GET_TO 0x011031C4 = 28 /\
  TB_GET_FROM 0x011031C4 = 12 /\
  TB_GET_PROMOTES 0x011031C4 = 0 /\
  TB_GET_EP 0x011031C4 = 0 /\
  TB_GET_DTZ 0x011031C4 = 17.
Proof. repeat split. Qed.

(** C6: [TB_RESULT_FAILED] is the all-ones 32-bit value 0xFFFFFFFF; the
    checkmate sentinel decodes to WDL Win (4) and DTZ 0, the stalemate
    sentinel to WDL Draw (2) and DTZ 0; the three sentinels are pairwise
    distinct. *)
Theorem C6_sentinels :
  TB_RESULT_FAILED = 0xFFFFFFFF /\
  TB_RESULT_FAILED = Z.ones 32 /\
  TB_GET_WDL TB_RESULT_CHECKMATE = TB_WIN /\ TB_WIN = 4 /\
  TB_GET_DTZ TB_RESULT_CHECKMATE = 0 /\
  TB_GET_WDL TB_RESULT_STALEMATE = TB_DRAW /\ TB_DRAW = 2 /\
  TB_GET_DTZ TB_RESULT_STALEMATE = 0 /\
  TB_RESULT_FAILED <> TB_RESULT_CHECKMATE /\
  TB_RESULT_FAILED <> TB_RESULT_STALEMATE /\
  TB_RESULT_CHECKMATE <> TB_RESULT_STALEMATE.
Proof. repeat split; discriminate. Qed.

(** ** Packed results and the failure sentinel *)

Ltac split_cmp :=
  repeat match goal with
    | |- context [?a <=? ?b] => destruct (Z.leb_spec a b); try lia
    | |- context [?a <? ?b] => destruct (Z.ltb_spec a b); try lia
    end.

Ltac clear_bit x n :=
  repeat match goal with
    | |- context [Z.testbit x ?k] =>
        first [ rewrite (Z.testbit_neg_r x k) by lia
              | rewrite (bits_above x n k) by lia ]
    end.

Ltac fold_setters :=
  change TB_SET_WDL with (TB_SET F_WDL);
  change TB_SET_TO with (TB_SET F_TO);
  change TB_SET_FROM with (TB_SET F_FROM);
  change TB_SET_PROMOTES with (TB_SET F_PROMOTES);
  change TB_SET_EP with (TB_SET F_EP);
  change TB_SET_DTZ with (TB_SET F_DTZ).

Lemma set_all_fields_bits (r0 w t fr p e d i : Z) :
  0 <= i ->
  Z.testbit (set_all_fields r0 w t fr p e d) i =
  (i <? 32) &&
  (if in_field F_DTZ i then Z.testbit d (i - 20) else
   if in_field F_EP i then Z.testbit e (i - 19) else
   if in_field F_PROMOTES i then Z.testbit p (i - 16) else
   if in_field F_FROM i then Z.testbit fr (i - 10) else
   if in_field F_TO i then Z.testbit t (i - 4) else
   if in_field F_WDL i then Z.testbit w (i - 0) else Z.testbit r0 i).
Proof.
  intros Hi. unfold set_all_fields.
  fold_setters.
  rewrite !TB_SET_bits by assumption.
  unfold in_field. field_consts.
  split_cmp; cbn [andb]; reflexivity.
Qed.

(** Setting all six fields gives the shifted field values or-ed
    together, whatever the starting value. *)
Lemma set_all_fields_or (r0 w t fr p e d : Z) :
  0 <= w < 2 ^ 4 -> 0 <= t < 2 ^ 6 -> 0 <= fr < 2 ^ 6 ->
  0 <= p < 2 ^ 3 -> 0 <= e < 2 ^ 1 -> 0 <= d < 2 ^ 12 ->
  set_all_fields r0 w t fr p e d =
  Z.lor (Z.lor (Z.lor (Z.lor (Z.lor w (Z.shiftl t 4)) (Z.shiftl fr 10))
                      (Z.shiftl p 16)) (Z.shiftl e 19)) (Z.shiftl d 20).
Proof.
  intros Hw Ht Hfr Hp He Hd.
  apply Z.bits_inj'. intros i Hi.
  rewrite set_all_fields_bits by assumption.
  rewrite !Z.lor_spec, !Z.shiftl_spec by assumption.
  unfold in_field. field_consts.
  split_cmp; cbn [andb];
    clear_bit w 4; clear_bit t 6; clear_bit fr 6;
    clear_bit p 3; clear_bit e 1; clear_bit d 12;
    rewrite ?Z.sub_0_r, ?orb_false_r, ?orb_false_l; reflexivity.
Qed.

Lemma TB_GET_WDL_set_all_fields (r0 w t fr p e d : Z) :
  TB_GET_WDL (set_all_fields r0 w t fr p e d) = w mod 2 ^ 4.
Proof.
  unfold set_all_fields.
  fold_setters. change TB_GET_WDL with (TB_GET F_WDL).
  rewrite !TB_GET_SET_other by discriminate.
  apply TB_GET_SET_same.
Qed.

(** C9: for every tuple of in-range field values with WDL class in 0..4
    (squares 0..63, promotion class 0..7, ep flag 0..1, DTZ field value
    0..4095), the packed result, whether built with the six setters from
    any starting value or as the shifted values or-ed together, reads
    back the WDL class and differs from [TB_RESULT_FAILED], whose WDL
    field reads 15. *)
Theorem C9_packed_result_not_failed (r0 w t fr p e d : Z) :
  TB_LOSS <= w <= TB_WIN -> 0 <= t <= 63 -> 0 <= fr <= 63 ->
  0 <= p <= 7 -> 0 <= e <= 1 -> 0 <= d <= 4095 ->
  let packed :=
    Z.lor (Z.lor (Z.lor (Z.lor (Z.lor w (Z.shiftl t 4)) (Z.shiftl fr 10))
                        (Z.shiftl p 16)) (Z.shiftl e 19)) (Z.shiftl d 20) in
  set_all_fields r0 w t fr p e d = packed /\
  TB_GET_WDL packed = w /\
  TB_GET_WDL TB_RESULT_FAILED = 15 /\
  packed <> TB_RESULT_FAILED.
Proof.
  intros Hw Ht Hfr Hp He Hd packed. unfold TB_LOSS, TB_WIN in Hw.
  assert (Hpk : set_all_fields r0 w t fr p e d = packed)
    by (apply set_all_fields_or; lia).
  assert (Hget : TB_GET_WDL packed = w).
  { rewrite <- Hpk, TB_GET_WDL_set_all_fields. apply Z.mod_small. lia. }
  split; [exact Hpk|]. split; [exact Hget|]. split; [reflexivity|].
  intros Heq. rewrite Heq in Hget.
  change (TB_GET_WDL TB_RESULT_FAILED) with 15 in Hget. lia.
Qed.

Lemma C9_packed_result_not_failed_witness :
  set_all_fields 0xFFFFFFFF 4 63 63 7 1 4095 <> TB_RESULT_FAILED.
Proof.
  assert (Hw : TB_LOSS <= 4 <= TB_WIN) by (unfold TB_LOSS, TB_WIN; lia).
  destruct (C9_packed_result_not_failed 0xFFFFFFFF 4 63 63 7 1 4095 Hw)
    as (Hpk & _ & _ & Hne); [lia | lia | lia | lia | lia |].
  rewrite Hpk. exact Hne.
Defined.

(** ** Probing beyond the largest supported piece count *)

Lemma tb_probe_wdl_beyond_largest
    (popcount : Z -> Z) (largest : Z) (table : Position -> option Z)
    (wh bl k q r b n p e : Z) (stm : bool) :
  largest < PYRRHIC_POPCOUNT popcount (Z.lor wh bl) ->
  tb_probe_wdl popcount largest table wh bl k q r b n p e stm
    = TB_RESULT_FAILED.
Proof.
  intros Hbig. unfold tb_probe_wdl, piece_count. cbn [white black].
  destruct (Z.ltb_spec largest (PYRRHIC_POPCOUNT popcount (Z.lor wh bl)));
    [reflexivity | lia].
Qed.

(** Both list-producing root probes start with the same check of the
    piece count, which decides the result beyond [TB_LARGEST] whatever
    the rest of the body would do. *)
Lemma root_probe_beyond_largest
    (largest : Z) (count : Z) (A : Type) (failed : A) (rest : A) :
  largest < count ->
  (if largest <? count then failed else rest) = failed.
Proof.
  intros Hbig. destruct (Z.ltb_spec largest count); [reflexivity | lia].
Qed.

(** C8: for every position whose piece count exceeds [TB_LARGEST],
    [tb_probe_wdl] and the three root probes [tb_probe_root],
    [tb_probe_root_dtz] and [tb_probe_root_wdl] return
    [TB_RESULT_FAILED], whose WDL field is outside the outcomes 0..4. *)
Theorem C8_probe_beyond_largest_fails
    (popcount : Z -> Z) (TB_LARGEST : Z)
    (wdl_table : Position -> option Z) (root_search : Position -> Z -> Z)
    (insufficient_material : Position -> bool)
    (root_dtz_search root_wdl_search : Position -> Z -> bool -> Z)
    (white black kings queens rooks bishops knights pawns rule50 ep : Z)
    (turn hasRepeated useRule50 : bool) :
  TB_LARGEST < PYRRHIC_POPCOUNT popcount (Z.lor white black) ->
  tb_probe_wdl popcount TB_LARGEST wdl_table
    white black kings queens rooks bishops knights pawns ep turn
    = TB_RESULT_FAILED /\
  tb_probe_root popcount TB_LARGEST wdl_table root_search
    white black kings queens rooks bishops knights pawns rule50 ep turn
    = TB_RESULT_FAILED /\
  ~ (TB_LOSS <=
     TB_GET_WDL (tb_probe_wdl popcount TB_LARGEST wdl_table
       white black kings queens rooks bishops knights pawns ep turn)
     <= TB_WIN) /\
  tb_probe_root_dtz popcount TB_LARGEST wdl_table insufficient_material
    root_dtz_search
    white black kings queens rooks bishops knights pawns rule50 ep turn
    hasRepeated
    = TB_RESULT_FAILED /\
  tb_probe_root_wdl popcount TB_LARGEST wdl_table insufficient_material
    root_wdl_search
    white black kings queens rooks bishops knights pawns rule50 ep turn
    useRule50
    = TB_RESULT_FAILED /\
  ~ (TB_LOSS <= TB_GET_WDL TB_RESULT_FAILED <= TB_WIN).
Proof.
  intros Hbig.
  pose proof (tb_probe_wdl_beyond_largest popcount TB_LARGEST wdl_table
                white black kings queens rooks bishops knights pawns ep
                turn Hbig) as Hwdl.
  assert (Hnot : ~ (TB_LOSS <= TB_GET_WDL TB_RESULT_FAILED <= TB_WIN)).
  { change (TB_GET_WDL TB_RESULT_FAILED) with 15.
    unfold TB_LOSS, TB_WIN. lia. }
  split; [exact Hwdl|]. split.
  - unfold tb_probe_root. rewrite Hwdl. now rewrite Z.eqb_refl.
  - split; [now rewrite Hwdl|]. split; [|split; [|exact Hnot]].
    + now apply root_probe_beyond_largest.
    + now apply root_probe_beyond_largest.
Qed.

Lemma C8_probe_beyond_largest_fails_witness :
  tb_probe_wdl popcount64 5 (fun _ => Some TB_DRAW)
    0x000000000000FFFF 0xFFFF000000000000
    0x1000000000000010 0x0800000000000008 0x8100000000000081
    0x2400000000000024 0x4200000000000042 0x00FF00000000FF00 0 true
    = TB_RESULT_FAILED /\
  tb_probe_root_dtz popcount64 5 (fun _ => Some TB_DRAW) (fun _ => true)
    (fun _ _ _ => TB_RESULT_CHECKMATE)
    0x000000000000FFFF 0xFFFF000000000000
    0x1000000000000010 0x0800000000000008 0x8100000000000081
    0x2400000000000024 0x4200000000000042 0x00FF00000000FF00 0 0 true
    false
    = TB_RESULT_FAILED.
Proof.
  destruct (C8_probe_beyond_largest_fails popcount64 5
              (fun _ => Some TB_DRAW) (fun _ _ => TB_RESULT_STALEMATE)
              (fun _ => true)
              (fun _ _ _ => TB_RESULT_CHECKMATE)
              (fun _ _ _ => TB_RESULT_CHECKMATE)
              0x000000000000FFFF 0xFFFF000000000000
              0x1000000000000010 0x0800000000000008 0x8100000000000081
              0x2400000000000024 0x4200000000000042 0x00FF00000000FF00
              0 0 true false true)
    as (Hwdl & _ & _ & Hdtz & _).
  - vm_compute. reflexivity.
  - split; [exact Hwdl | exact Hdtz].
Defined.

(** * Further properties of the codecs *)

(** ** What the decoders compute *)

Lemma TB_GET_div_mod (f : Field) (r : Z) :
  TB_GET f r = (r / 2 ^ field_shift f) mod 2 ^ field_width f.
Proof.
  destruct (field_geometry f) as (Hs & Hw & _).
  apply Z.bits_inj'. intros i Hi.
  rewrite TB_GET_bits, mod_pow2_bits by lia.
  now rewrite Z.div_pow2_bits by assumption.
Qed.

Lemma TB_GET_range (f : Field) (r : Z) :
  0 <= TB_GET f r < 2 ^ field_width f.
Proof.
  rewrite TB_GET_div_mod. apply Z.mod_pos_bound.
  destruct (field_geometry f) as (_ & Hw & _). lia.
Qed.

(** Every getter is a division by [2^shift] followed by a remainder
    modulo [2^width], for any argument; so a decoded WDL is in 0..15, a
    decoded square in 0..63, a promotion class in 0..7, the en-passant
    flag in 0..1 and DTZ in 0..4095, whatever the result value is. *)
Theorem getters_are_bounded (r : Z) :
  (forall f, TB_GET f r = (r / 2 ^ field_shift f) mod 2 ^ field_width f) /\
  0 <= TB_GET_WDL r <= 15 /\
  0 <= TB_GET_TO r <= 63 /\
  0 <= TB_GET_FROM r <= 63 /\
  0 <= TB_GET_PROMOTES r <= 7 /\
  0 <= TB_GET_EP r <= 1 /\
  0 <= TB_GET_DTZ r <= 4095.
Proof.
  split; [intros f; apply TB_GET_div_mod|].
  pose proof (TB_GET_range F_WDL r) as H1.
  pose proof (TB_GET_range F_TO r) as H2.
  pose proof (TB_GET_range F_FROM r) as H3.
  pose proof (TB_GET_range F_PROMOTES r) as H4.
  pose proof (TB_GET_range F_EP r) as H5.
  pose proof (TB_GET_range F_DTZ r) as H6.
  cbn [TB_GET field_width] in *. lia.
Qed.

Lemma move_decoders_div_mod (x : Z) :
  PYRRHIC_MOVE_TO x = x mod 2 ^ 6 /\
  PYRRHIC_MOVE_FROM x = (x / 2 ^ 6) mod 2 ^ 6 /\
  PYRRHIC_MOVE_FLAGS x = (x / 2 ^ 12) mod 2 ^ 4.
Proof.
  unfold PYRRHIC_MOVE_TO, PYRRHIC_MOVE_FROM, PYRRHIC_MOVE_FLAGS.
  change PYRRHIC_MASK_TO with (Z.ones 6).
  change PYRRHIC_MASK_FROM with (Z.ones 6).
  change PYRRHIC_MASK_FLAGS with (Z.ones 4).
  unfold PYRRHIC_SHIFT_TO, PYRRHIC_SHIFT_FROM, PYRRHIC_SHIFT_FLAGS.
  rewrite !Z.land_ones, !Z.shiftr_div_pow2 by lia.
  rewrite Z.pow_0_r, Z.div_1_r. repeat split.
Qed.

(** The move decoders are remainders of quotients by powers of two, for
    any argument: the destination and origin are always squares in
    0..63 and the flag nibble is in 0..15. *)
Theorem move_decoders_are_bounded (x : Z) :
  PYRRHIC_MOVE_TO x = x mod 64 /\
  PYRRHIC_MOVE_FROM x = (x / 64) mod 64 /\
  PYRRHIC_MOVE_FLAGS x = (x / 4096) mod 16 /\
  0 <= PYRRHIC_MOVE_TO x <= 63 /\
  0 <= PYRRHIC_MOVE_FROM x <= 63 /\
  0 <= PYRRHIC_MOVE_FLAGS x <= 15.
Proof.
  destruct (move_decoders_div_mod x) as (Hto & Hfrom & Hfl).
  change (2 ^ 6) with 64 in *. change (2 ^ 12) with 4096 in *.
  change (2 ^ 4) with 16 in *.
  rewrite Hto, Hfrom, Hfl.
  pose proof (Z.mod_pos_bound x 64).
  pose proof (Z.mod_pos_bound (x / 64) 64).
  pose proof (Z.mod_pos_bound (x / 4096) 16).
  repeat split; lia.
Qed.

(** ** A result is its six fields *)

Ltac fold_getters :=
  change TB_GET_WDL with (TB_GET F_WDL);
  change TB_GET_TO with (TB_GET F_TO);
  change TB_GET_FROM with (TB_GET F_FROM);
  change TB_GET_PROMOTES with (TB_GET F_PROMOTES);
  change TB_GET_EP with (TB_GET F_EP);
  change TB_GET_DTZ with (TB_GET F_DTZ).

Lemma set_all_fields_of_getters (r0 r : Z) :
  is_u32 r ->
  set_all_fields r0 (TB_GET_WDL r) (TB_GET_TO r) (TB_GET_FROM r)
                 (TB_GET_PROMOTES r) (TB_GET_EP r) (TB_GET_DTZ r) = r.
Proof.
  intros Hr. apply Z.bits_inj'. intros i Hi.
  rewrite set_all_fields_bits by assumption. fold_getters.
  unfold in_field. field_consts.
  split_cmp; cbn [andb];
    try (symmetry; apply is_u32_bits_high; [assumption | lia]);
    rewrite TB_GET_bits by lia; field_consts;
    split_cmp; cbn [andb]; f_equal; lia.
Qed.

Lemma getters_determine_result (r r' : Z) :
  is_u32 r -> is_u32 r' ->
  (forall f, TB_GET f r = TB_GET f r') -> r = r'.
Proof.
  intros Hr Hr' Hget.
  rewrite <- (set_all_fields_of_getters 0 r Hr).
  rewrite <- (set_all_fields_of_getters 0 r' Hr').
  fold_getters. now rewrite !Hget.
Qed.

(** Writing the six fields read from a 32-bit result [r] into any
    starting value gives [r] back, and [r] is its six fields shifted to
    their positions and or-ed together: the fields leave no bit of a
    result unaccounted for. *)
Theorem result_rebuilt_from_getters (r0 r : Z) :
  is_u32 r ->
  set_all_fields r0 (TB_GET_WDL r) (TB_GET_TO r) (TB_GET_FROM r)
                 (TB_GET_PROMOTES r) (TB_GET_EP r) (TB_GET_DTZ r) = r /\
  Z.lor (Z.lor (Z.lor (Z.lor (Z.lor
    (TB_GET_WDL r)
    (Z.shiftl (TB_GET_TO r) TB_RESULT_TO_SHIFT))
    (Z.shiftl (TB_GET_FROM r) TB_RESULT_FROM_SHIFT))
    (Z.shiftl (TB_GET_PROMOTES r) TB_RESULT_PROMOTES_SHIFT))
    (Z.shiftl (TB_GET_EP r) TB_RESULT_EP_SHIFT))
    (Z.shiftl (TB_GET_DTZ r) TB_RESULT_DTZ_SHIFT) = r.
Proof.
  intros Hr. split; [now apply set_all_fields_of_getters|].
  rewrite <- (set_all_fields_of_getters 0 r Hr) at 7.
  symmetry. apply set_all_fields_or.
  - apply (TB_GET_range F_WDL).
  - apply (TB_GET_range F_TO).
  - apply (TB_GET_range F_FROM).
  - apply (TB_GET_range F_PROMOTES).
  - apply (TB_GET_range F_EP).
  - apply (TB_GET_range F_DTZ).
Qed.

Lemma result_rebuilt_from_getters_witness :
  set_all_fields 0 (TB_GET_WDL 0xDEADBEEF) (TB_GET_TO 0xDEADBEEF)
    (TB_GET_FROM 0xDEADBEEF) (TB_GET_PROMOTES 0xDEADBEEF)
    (TB_GET_EP 0xDEADBEEF) (TB_GET_DTZ 0xDEADBEEF) = 0xDEADBEEF.
Proof.
  assert (Hr : is_u32 0xDEADBEEF) by closed_u32.
  exact (proj1 (result_rebuilt_from_getters 0 0xDEADBEEF Hr)).
Defined.

(** Two 32-bit results on which all six getters agree are the same
    value. *)
Theorem result_equal_when_getters_agree (r r' : Z) :
  is_u32 r -> is_u32 r' ->
  TB_GET_WDL r = TB_GET_WDL r' -> TB_GET_TO r = TB_GET_TO r' ->
  TB_GET_FROM r = TB_GET_FROM r' ->
  TB_GET_PROMOTES r = TB_GET_PROMOTES r' ->
  TB_GET_EP r = TB_GET_EP r' -> TB_GET_DTZ r = TB_GET_DTZ r' ->
  r = r'.
Proof.
  intros Hr Hr' H1 H2 H3 H4 H5 H6.
  apply getters_determine_result; try assumption.
  intros f. destruct f; assumption.
Qed.

Lemma result_equal_when_getters_agree_witness :
  set_all_fields 0 4 28 12 0 0 17 = set_all_fields 0xFFFFFFFF 4 28 12 0 0 17.
Proof.
  apply result_equal_when_getters_agree;
    (closed_u32 || reflexivity).
Defined.

(** ** A move is its three fields *)

Lemma move_rebuilt_bits (x : Z) :
  is_u16 x ->
  Z.lor (Z.lor (Z.shiftl (PYRRHIC_MOVE_FLAGS x) 12)
               (Z.shiftl (PYRRHIC_MOVE_FROM x) 6))
        (PYRRHIC_MOVE_TO x) = x.
Proof.
  intros Hx. apply Z.bits_inj'. intros i Hi.
  rewrite packed_move_bits by assumption.
  unfold PYRRHIC_MOVE_TO, PYRRHIC_MOVE_FROM, PYRRHIC_MOVE_FLAGS.
  change PYRRHIC_MASK_TO with (Z.ones 6).
  change PYRRHIC_MASK_FROM with (Z.ones 6).
  change PYRRHIC_MASK_FLAGS with (Z.ones 4).
  unfold PYRRHIC_SHIFT_TO, PYRRHIC_SHIFT_FROM, PYRRHIC_SHIFT_FLAGS.
  rewrite (shr_mask_bits x 0 6 i) by lia. rewrite Z.add_0_r.
  destruct (Z.lt_ge_cases i 6) as [H6 | H6].
  - rewrite !(Z.testbit_neg_r _ (i - 12)), !(Z.testbit_neg_r _ (i - 6)) by lia.
    destruct (Z.ltb_spec i 6); [reflexivity | lia].
  - rewrite (shr_mask_bits x 6 6 (i - 6)) by lia.
    replace (i - 6 + 6) with i by lia.
    destruct (Z.lt_ge_cases i 12) as [H12 | H12].
    + rewrite (Z.testbit_neg_r _ (i - 12)) by lia.
      destruct (Z.ltb_spec i 6), (Z.ltb_spec (i - 6) 6);
        cbn [andb orb]; try lia. now rewrite orb_false_r.
    + rewrite (shr_mask_bits x 12 4 (i - 12)) by lia.
      replace (i - 12 + 12) with i by lia.
      destruct (Z.ltb_spec i 6), (Z.ltb_spec (i - 6) 6),
               (Z.ltb_spec (i - 12) 4); cbn [andb orb]; try lia.
      * now rewrite !orb_false_r.
      * symmetry. apply (bits_above x 16); [lia | exact Hx | lia].
Qed.

(** A 16-bit move value is rebuilt from what the three decoders return:
    [(flags << 12) | (from << 6) | to] is the move itself, so two 16-bit
    moves with the same origin, destination and flags are equal. *)
Theorem move_rebuilt_from_decoders (x y : Z) :
  is_u16 x -> is_u16 y ->
  Z.lor (Z.lor (Z.shiftl (PYRRHIC_MOVE_FLAGS x) PYRRHIC_SHIFT_FLAGS)
               (Z.shiftl (PYRRHIC_MOVE_FROM x) PYRRHIC_SHIFT_FROM))
        (Z.shiftl (PYRRHIC_MOVE_TO x) PYRRHIC_SHIFT_TO) = x /\
  (PYRRHIC_MOVE_FROM x = PYRRHIC_MOVE_FROM y ->
   PYRRHIC_MOVE_TO x = PYRRHIC_MOVE_TO y ->
   PYRRHIC_MOVE_FLAGS x = PYRRHIC_MOVE_FLAGS y -> x = y).
Proof.
  intros Hx Hy. split.
  - unfold PYRRHIC_SHIFT_FLAGS, PYRRHIC_SHIFT_FROM, PYRRHIC_SHIFT_TO.
    rewrite Z.shiftl_0_r. now apply move_rebuilt_bits.
  - intros Hfrom Hto Hfl.
    rewrite <- (move_rebuilt_bits x Hx), <- (move_rebuilt_bits y Hy).
    now rewrite Hfrom, Hto, Hfl.
Qed.

Lemma move_rebuilt_from_decoders_witness :
  Z.lor (Z.lor (Z.shiftl (PYRRHIC_MOVE_FLAGS 0xBEEF) PYRRHIC_SHIFT_FLAGS)
               (Z.shiftl (PYRRHIC_MOVE_FROM 0xBEEF) PYRRHIC_SHIFT_FROM))
        (Z.shiftl (PYRRHIC_MOVE_TO 0xBEEF) PYRRHIC_SHIFT_TO) = 0xBEEF.
Proof.
  assert (Hx : is_u16 0xBEEF) by (unfold is_u16; split; [discriminate | reflexivity]).
  exact (proj1 (move_rebuilt_from_decoders 0xBEEF 0xBEEF Hx Hx)).
Defined.

(** ** Setter algebra *)

Lemma TB_SET_in_field_lt32 (f : Field) (i : Z) :
  in_field f i = true -> (i <? 32) = true.
Proof.
  intros Hin. destruct (field_geometry f) as (_ & _ & Hsw).
  unfold in_field in Hin. apply andb_true_iff in Hin as [_ Hlt].
  apply Z.ltb_lt in Hlt. apply Z.ltb_lt. lia.
Qed.

(** Setting a field twice keeps only the second value: the first write
    leaves no trace, in range or not. *)
Theorem setter_overwrites (f : Field) (r v v' : Z) :
  TB_SET f (TB_SET f r v) v' = TB_SET f r v'.
Proof.
  apply Z.bits_inj'. intros i Hi. rewrite !TB_SET_bits by assumption.
  destruct (in_field f i); [reflexivity|].
  destruct (i <? 32); reflexivity.
Qed.

(** Setters of two different fields commute: the order in which a
    result is filled in does not matter. *)
Theorem setters_commute (f g : Field) (r v v' : Z) :
  f <> g ->
  TB_SET f (TB_SET g r v) v' = TB_SET g (TB_SET f r v') v.
Proof.
  intros Hfg. apply Z.bits_inj'. intros i Hi.
  rewrite !TB_SET_bits by assumption.
  case_eq (in_field f i); intros Hf.
  - rewrite (in_field_disjoint f g i Hfg Hf).
    now rewrite (TB_SET_in_field_lt32 f i Hf).
  - case_eq (in_field g i); intros Hg.
    + now rewrite (TB_SET_in_field_lt32 g i Hg).
    + reflexivity.
Qed.

Lemma setters_commute_witness :
  TB_SET F_DTZ (TB_SET F_WDL 0 4) 17 = TB_SET F_WDL (TB_SET F_DTZ 0 17) 4.
Proof. apply setters_commute. discriminate. Defined.

Lemma TB_SET_TB_GET_id (f : Field) (r : Z) :
  is_u32 r -> TB_SET f r (TB_GET f r) = r.
Proof.
  intros Hr. destruct (field_geometry f) as (Hs & Hw & Hsw).
  apply Z.bits_inj'. intros i Hi. rewrite TB_SET_bits by assumption.
  case_eq (in_field f i); intros Hin.
  - unfold in_field in Hin. apply andb_true_iff in Hin as [Hlo Hhi].
    apply Z.leb_le in Hlo. apply Z.ltb_lt in Hhi.
    rewrite TB_GET_bits by lia.
    replace (i - field_shift f + field_shift f) with i by lia.
    destruct (Z.ltb_spec (i - field_shift f) (field_width f));
      [reflexivity | lia].
  - destruct (Z.ltb_spec i 32); cbn [andb]; [reflexivity|].
    symmetry. now apply is_u32_bits_high.
Qed.

Lemma lor_disjoint_add (a b : Z) :
  Z.land a b = 0 -> Z.lor a b = a + b.
Proof.
  intros H. now rewrite <- Z.lxor_lor, Z.add_nocarry_lxor.
Qed.

(** A setter's result as a sum: the bits of [r] outside the field, plus
    the truncated operand at the field's position. *)
Lemma TB_SET_sum (f : Field) (r v : Z) :
  TB_SET f r v =
  Z.land r (not32 (field_mask f)) +
  (v mod 2 ^ field_width f) * 2 ^ field_shift f.
Proof.
  destruct (field_geometry f) as (Hs & Hw & Hsw).
  rewrite TB_SET_eq, lor_disjoint_add.
  - f_equal. rewrite <- Z.shiftl_mul_pow2 by assumption.
    apply Z.bits_inj'. intros i Hi.
    rewrite Z.land_spec, shl32_bits, field_mask_bits by assumption.
    rewrite Z.shiftl_spec, mod_pow2_bits by lia.
    unfold in_field.
    destruct (Z.ltb_spec i 32), (Z.leb_spec (field_shift f) i),
             (Z.ltb_spec i (field_shift f + field_width f)),
             (Z.ltb_spec (i - field_shift f) (field_width f));
      cbn [andb]; try lia; try reflexivity;
      try (now rewrite andb_false_r);
      try (now rewrite andb_true_r).
    now rewrite Z.testbit_neg_r by lia.
  - apply Z.bits_inj'. intros i Hi.
    rewrite !Z.land_spec, not32_bits, Z.bits_0 by assumption.
    destruct (Z.testbit (field_mask f) i); cbn [negb];
      now rewrite ?andb_false_r.
Qed.

(** A setter replaces the field's value and nothing else: writing back
    the value a getter has just read leaves a 32-bit result as it was,
    and writing [v] moves the result, as a number, by the difference
    between the truncated [v] and the old field value, scaled to the
    field's position. *)
Theorem setter_replaces_field_value (f : Field) (r v : Z) :
  is_u32 r ->
  TB_SET f r (TB_GET f r) = r /\
  TB_SET f r v =
  r + (v mod 2 ^ field_width f - TB_GET f r) * 2 ^ field_shift f.
Proof.
  intros Hr. split; [now apply TB_SET_TB_GET_id|].
  pose proof (TB_SET_TB_GET_id f r Hr) as Hid.
  rewrite TB_SET_sum in Hid.
  rewrite (Z.mod_small (TB_GET f r)) in Hid by apply TB_GET_range.
  rewrite TB_SET_sum. lia.
Qed.

Lemma setter_replaces_field_value_witness :
  TB_SET F_FROM 0xDEADBEEF (TB_GET F_FROM 0xDEADBEEF) = 0xDEADBEEF /\
  TB_SET F_FROM 0xDEADBEEF 100 =
  0xDEADBEEF + (100 mod 2 ^ 6 - TB_GET F_FROM 0xDEADBEEF) * 2 ^ 10.
Proof.
  apply (setter_replaces_field_value F_FROM 0xDEADBEEF 100). closed_u32.
Defined.

(** All six fields written and then read: each getter returns the value
    written to its field, reduced modulo the field's width, and the
    result does not depend on the value the writes started from. *)
Theorem all_fields_written_then_read (r0 w t fr p e d : Z) :
  let r := set_all_fields r0 w t fr p e d in
  TB_GET_WDL r = w mod 2 ^ 4 /\
  TB_GET_TO r = t mod 2 ^ 6 /\
  TB_GET_FROM r = fr mod 2 ^ 6 /\
  TB_GET_PROMOTES r = p mod 2 ^ 3 /\
  TB_GET_EP r = e mod 2 ^ 1 /\
  TB_GET_DTZ r = d mod 2 ^ 12 /\
  r = set_all_fields 0 w t fr p e d.
Proof.
  intros r. subst r. unfold set_all_fields. fold_setters. fold_getters.
  repeat split.
  - rewrite !TB_GET_SET_other by discriminate. apply TB_GET_SET_same.
  - rewrite !TB_GET_SET_other by discriminate. apply TB_GET_SET_same.
  - rewrite !TB_GET_SET_other by discriminate. apply TB_GET_SET_same.
  - rewrite !TB_GET_SET_other by discriminate. apply TB_GET_SET_same.
  - rewrite !TB_GET_SET_other by discriminate. apply TB_GET_SET_same.
  - apply TB_GET_SET_same.
  - apply Z.bits_inj'. intros i Hi.
    change (Z.testbit (set_all_fields r0 w t fr p e d) i =
            Z.testbit (set_all_fields 0 w t fr p e d) i).
    rewrite !set_all_fields_bits by assumption.
    unfold in_field. field_consts.
    split_cmp; cbn [andb]; reflexivity.
Qed.

(** ** Reserved values *)

(** The three reserved values all have origin equal to destination, so
    a result whose origin and destination squares differ, as for any
    real move, is none of them. *)
Theorem result_of_a_move_is_not_reserved (r : Z) :
  TB_GET_FROM r <> TB_GET_TO r -> ~ is_sentinel r.
Proof.
  intros Hmove [-> | [-> | ->]]; apply Hmove; reflexivity.
Qed.

Lemma result_of_a_move_is_not_reserved_witness :
  ~ is_sentinel (set_all_fields 0 TB_WIN 28 12 0 0 17).
Proof.
  apply result_of_a_move_is_not_reserved. discriminate.
Defined.

Lemma TB_SET_WDL_zero (w : Z) :
  0 <= w <= 15 -> TB_SET_WDL 0 w = w.
Proof.
  intros Hw. change (TB_SET F_WDL 0 w = w).
  rewrite TB_SET_sum. cbn [field_width field_shift].
  unfold TB_RESULT_WDL_SHIFT. rewrite Z.land_0_l, Z.mod_small; lia.
Qed.

(** A result in which only WDL has been set, starting from 0, is the
    WDL class as a number and every other field reads 0; so the
    checkmate and stalemate values are numerically [TB_WIN] and
    [TB_DRAW], the values a WDL probe returns for a win and a draw. *)
Theorem wdl_only_result_is_the_wdl_class (w : Z) :
  0 <= w <= 15 ->
  TB_SET_WDL 0 w = w /\
  (forall f, f <> F_WDL -> TB_GET f (TB_SET_WDL 0 w) = 0) /\
  TB_RESULT_CHECKMATE = TB_WIN /\ TB_RESULT_STALEMATE = TB_DRAW.
Proof.
  intros Hw. split; [now apply TB_SET_WDL_zero|]. split.
  - intros f Hf. change (TB_GET f (TB_SET F_WDL 0 w) = 0).
    rewrite TB_GET_SET_other by assumption. destruct f; reflexivity.
  - split; reflexivity.
Qed.

Lemma wdl_only_result_is_the_wdl_class_witness :
  TB_SET_WDL 0 TB_CURSED_WIN = TB_CURSED_WIN.
Proof.
  apply (wdl_only_result_is_the_wdl_class TB_CURSED_WIN).
  unfold TB_CURSED_WIN. lia.
Defined.

(** ** Promotions: results and moves *)

Lemma TB_GET_PROMOTES_after_set (r p : Z) :
  TB_GET_PROMOTES (TB_SET_PROMOTES r p) = p mod 8.
Proof. exact (TB_GET_SET_same F_PROMOTES r p). Qed.

(** What [TB_SET_PROMOTES] stores is its operand masked with
    [PYRRHIC_MASK_PROMO_FLAGS]; each of the four result predicates then
    holds exactly when that stored value is its piece code, and of any
    result value at most one of the four holds. *)
Theorem result_promotion_predicates (r p : Z) :
  TB_GET_PROMOTES (TB_SET_PROMOTES r p) = Z.land p PYRRHIC_MASK_PROMO_FLAGS /\
  TB_RESULT_IS_QPROMO (TB_SET_PROMOTES r p) = (p mod 8 =? PYRRHIC_FLAG_QPROMO) /\
  TB_RESULT_IS_RPROMO (TB_SET_PROMOTES r p) = (p mod 8 =? PYRRHIC_FLAG_RPROMO) /\
  TB_RESULT_IS_BPROMO (TB_SET_PROMOTES r p) = (p mod 8 =? PYRRHIC_FLAG_BPROMO) /\
  TB_RESULT_IS_NPROMO (TB_SET_PROMOTES r p) = (p mod 8 =? PYRRHIC_FLAG_NPROMO) /\
  Z.b2z (TB_RESULT_IS_QPROMO r) + Z.b2z (TB_RESULT_IS_RPROMO r) +
  Z.b2z (TB_RESULT_IS_BPROMO r) + Z.b2z (TB_RESULT_IS_NPROMO r) <= 1.
Proof.
  unfold TB_RESULT_IS_QPROMO, TB_RESULT_IS_RPROMO, TB_RESULT_IS_BPROMO,
    TB_RESULT_IS_NPROMO.
  rewrite !TB_GET_PROMOTES_after_set.
  split.
  - change PYRRHIC_MASK_PROMO_FLAGS with (Z.ones 3).
    now rewrite Z.land_ones by lia.
  - repeat (split; [reflexivity|]).
    unfold PYRRHIC_FLAG_QPROMO, PYRRHIC_FLAG_RPROMO, PYRRHIC_FLAG_BPROMO,
      PYRRHIC_FLAG_NPROMO.
    generalize (TB_GET_PROMOTES r). intros c.
    destruct (Z.eqb_spec c 1), (Z.eqb_spec c 2), (Z.eqb_spec c 3),
             (Z.eqb_spec c 4); cbn [Z.b2z]; lia.
Qed.

(** Storing a move's flag nibble in the PROMOTES field keeps its
    promotion kind: when the nibble is at most 8 (every flag the header
    defines), each result predicate agrees with the move predicate of
    the same piece, and an en-passant move stores promotion class 0. *)
Theorem move_flags_stored_as_promotion (r m : Z) :
  PYRRHIC_MOVE_FLAGS m <= 8 ->
  let r' := TB_SET_PROMOTES r (PYRRHIC_MOVE_FLAGS m) in
  TB_RESULT_IS_QPROMO r' = PYRRHIC_MOVE_IS_QPROMO m /\
  TB_RESULT_IS_RPROMO r' = PYRRHIC_MOVE_IS_RPROMO m /\
  TB_RESULT_IS_BPROMO r' = PYRRHIC_MOVE_IS_BPROMO m /\
  TB_RESULT_IS_NPROMO r' = PYRRHIC_MOVE_IS_NPROMO m /\
  (PYRRHIC_MOVE_IS_ENPASS m = true -> TB_GET_PROMOTES r' = 0).
Proof.
  intros Hfl r'. subst r'.
  unfold TB_RESULT_IS_QPROMO, TB_RESULT_IS_RPROMO, TB_RESULT_IS_BPROMO,
    TB_RESULT_IS_NPROMO, PYRRHIC_MOVE_IS_QPROMO, PYRRHIC_MOVE_IS_RPROMO,
    PYRRHIC_MOVE_IS_BPROMO, PYRRHIC_MOVE_IS_NPROMO, PYRRHIC_MOVE_IS_ENPASS.
  rewrite !TB_GET_PROMOTES_after_set.
  unfold PYRRHIC_FLAG_QPROMO, PYRRHIC_FLAG_RPROMO, PYRRHIC_FLAG_BPROMO,
    PYRRHIC_FLAG_NPROMO, PYRRHIC_FLAG_ENPASS.
  assert (H0 : 0 <= PYRRHIC_MOVE_FLAGS m).
  { destruct (move_decoders_div_mod m) as (_ & _ & ->).
    apply Z.mod_pos_bound. lia. }
  revert Hfl H0. generalize (PYRRHIC_MOVE_FLAGS m). intros fl Hfl H0.
  assert (Hmod : (fl < 8 /\ fl mod 8 = fl) \/ (fl = 8 /\ fl mod 8 = 0)).
  { destruct (Z.eq_dec fl 8) as [-> | Hne]; [right; split; reflexivity|].
    left. split; [lia|]. apply Z.mod_small. lia. }
  destruct Hmod as [[Hlt ->] | [-> ->]].
  - repeat split. intros H8. apply Z.eqb_eq in H8. lia.
  - repeat split.
Qed.

Lemma move_flags_stored_as_promotion_witness :
  TB_RESULT_IS_RPROMO (TB_SET_PROMOTES 0xFFFFFFFF (PYRRHIC_MOVE_FLAGS 0x2D1F))
  = PYRRHIC_MOVE_IS_RPROMO 0x2D1F.
Proof.
  refine (proj1 (proj2 (move_flags_stored_as_promotion 0xFFFFFFFF 0x2D1F _))).
  discriminate.
Defined.

(** A move value satisfies exactly one of the five kind predicates when
    its flag nibble is 1, 2, 3, 4 or 8, and none of them for every other
    nibble: a plain move (flag 0) and the unused codes 5, 6, 7 and 9..15
    are neither a promotion nor an en-passant capture. *)
Theorem move_kind_count (x : Z) :
  move_kinds_holding x =
  if existsb (Z.eqb (PYRRHIC_MOVE_FLAGS x))
       [PYRRHIC_FLAG_QPROMO; PYRRHIC_FLAG_RPROMO; PYRRHIC_FLAG_BPROMO;
        PYRRHIC_FLAG_NPROMO; PYRRHIC_FLAG_ENPASS]
  then 1%nat else 0%nat.
Proof.
  unfold move_kinds_holding, move_kind_predicates.
  unfold PYRRHIC_MOVE_IS_ENPASS, PYRRHIC_MOVE_IS_QPROMO,
    PYRRHIC_MOVE_IS_RPROMO, PYRRHIC_MOVE_IS_BPROMO, PYRRHIC_MOVE_IS_NPROMO.
  unfold PYRRHIC_FLAG_ENPASS, PYRRHIC_FLAG_QPROMO, PYRRHIC_FLAG_RPROMO,
    PYRRHIC_FLAG_BPROMO, PYRRHIC_FLAG_NPROMO.
  cbn [filter existsb]. generalize (PYRRHIC_MOVE_FLAGS x). intros fl.
  destruct (Z.eqb_spec fl 8), (Z.eqb_spec fl 1), (Z.eqb_spec fl 2),
           (Z.eqb_spec fl 3), (Z.eqb_spec fl 4);
    cbn [length orb]; try lia; reflexivity.
Qed.

(** ** api.h decoders on a result written with the setters *)

(** The decoders of api.h recover what the setters of tbprobe.h wrote:
    for field values within their widths, [TB_RESULT_WDL],
    [TB_RESULT_DTZ], [TB_RESULT_TO], [TB_RESULT_FROM] and
    [TB_RESULT_IS_ENPASS] return the WDL class, DTZ, the two squares and
    the en-passant flag of a result filled in with the six setters. *)
Theorem api_decoders_read_setters (r0 w t fr p e d : Z) :
  0 <= w <= 15 -> 0 <= t <= 63 -> 0 <= fr <= 63 ->
  0 <= p <= 7 -> 0 <= e <= 1 -> 0 <= d <= 4095 ->
  let r := set_all_fields r0 w t fr p e d in
  TB_RESULT_WDL r = w /\ TB_RESULT_DTZ r = d /\
  TB_RESULT_TO r = t /\ TB_RESULT_FROM r = fr /\
  TB_RESULT_IS_ENPASS r = e.
Proof.
  intros Hw Ht Hfr Hp He Hd r. subst r.
  change TB_RESULT_WDL with (TB_GET F_WDL).
  change TB_RESULT_DTZ with (TB_GET F_DTZ).
  change TB_RESULT_TO with (TB_GET F_TO).
  change TB_RESULT_FROM with (TB_GET F_FROM).
  change TB_RESULT_IS_ENPASS with (TB_GET F_EP).
  unfold set_all_fields. fold_setters.
  repeat split;
    rewrite ?TB_GET_SET_other by discriminate;
    rewrite TB_GET_SET_same; cbn [field_width];
    apply Z.mod_small; lia.
Qed.

Lemma api_decoders_read_setters_witness :
  TB_RESULT_FROM (set_all_fields 0xFFFFFFFF 3 28 12 0 1 100) = 12 /\
  TB_RESULT_IS_ENPASS (set_all_fields 0xFFFFFFFF 3 28 12 0 1 100) = 1.
Proof.
  destruct (api_decoders_read_setters 0xFFFFFFFF 3 28 12 0 1 100)
    as (_ & _ & _ & Hfrom & Hep); [lia | lia | lia | lia | lia | lia |].
  split; [exact Hfrom | exact Hep].
Defined.
